(** * conditioner: the module registry and the bound-module lifecycle

    A shallow embedding of [src/conditioner/ModuleRegistry.js] and the
    properties its specification states about it.

    The registry keeps its options and its redirects in two plain objects,
    [_options:{}] and [_redirects:{}], used as dictionaries. A plain object
    inherits from [Object.prototype]: a read [obj[k]] that finds no own
    property returns the inherited member ([toString], [constructor], ...),
    and a write [obj['__proto__'] = v] runs the inherited setter, which
    changes the prototype of the object when [v] is an object or [null] and
    does nothing otherwise. Both are part of the model.

    Paths and aliases are primitive values (the documented type is String),
    options are primitive values or plain objects with data properties, and
    what a lookup takes and returns may also be a member of
    [Object.prototype]. The three methods run in a state-and-exception
    monad over the registry and the record of the calls made to the
    loader's [config]; the loader's [toUrl] is a parameter. *)

From Stdlib Require Import Ascii.
From stdpp Require Import gmap strings pretty list.

Open Scope string_scope.

(** ** JavaScript values *)

(** The integers that a JavaScript number holds exactly and prints with all
    their digits: those up to [Number.MAX_SAFE_INTEGER] in absolute value. *)
Record safe_integer : Type := mkSafeInteger {
  integer : Z;
  integer_safe : Is_true (Z.abs integer <=? 9007199254740991)%Z
}.

Definition zero : safe_integer := {| integer := 0; integer_safe := I |}.

(** The primitive values: [undefined], [null], booleans, numbers (the safe
    integers and NaN) and strings. *)
Inductive primitive : Type :=
  | VUndefined
  | VNull
  | VBool (b : bool)
  | VNumber (n : safe_integer)
  | VNaN
  | VString (s : string).

(** The objects of the standard library that a plain object gives access
    to: [Object.prototype] and the functions that are its members. *)
Inductive native : Type :=
  | ObjectPrototype
  | NativeFunction (name : string).

(** What a caller makes: a primitive, or a plain object, given by its own
    data properties (the first entry of a key is the property); such an
    object inherits from [Object.prototype]. *)
#[warnings="-register-all"]
Inductive data : Type :=
  | Primitive (p : primitive)
  | Object (properties : list (string * data)).

(** What a lookup is asked for and what [getRedirect] returns. *)
Inductive name : Type :=
  | Named (p : primitive)
  | NativeName (n : native).

(** Every value of the model. *)
Inductive value : Type :=
  | Data (d : data)
  | Native (n : native).

Coercion Primitive : primitive >-> data.
Coercion Data : data >-> value.
Coercion Named : primitive >-> name.

Definition name_value (n : name) : value :=
  match n with
  | Named p => Data (Primitive p)
  | NativeName f => Native f
  end.

(** ToBoolean: what [if (v)], [!v] and [v || w] test. *)
Class Truthy (A : Type) : Type := truthy : A → bool.

#[global] Instance truthy_primitive : Truthy primitive := λ v,
  match v with
  | VUndefined | VNull | VNaN => false
  | VBool b => b
  | VNumber n => negb (integer n =? 0)%Z
  | VString s => negb (String.eqb s "")
  end.

#[global] Instance truthy_data : Truthy data := λ d,
  match d with
  | Primitive p => truthy p
  | Object _ => true
  end.

#[global] Instance truthy_name : Truthy name := λ n,
  match n with
  | Named p => truthy p
  | NativeName _ => true
  end.

#[global] Instance truthy_value : Truthy value := λ v,
  match v with
  | Data d => truthy d
  | Native _ => true
  end.

(** [a || b] on values that are already evaluated. *)
Definition js_or {A} `{Truthy A} (a b : A) : A := if truthy a then a else b.

(** ToPropertyKey: the string under which [obj[v]] reads and writes. A
    safe integer prints in decimal, [Object.prototype] prints as
    [[object Object]] and a native function as its source text (in the
    form V8 gives it). *)
Definition to_key (v : name) : string :=
  match v with
  | Named VUndefined => "undefined"
  | Named VNull => "null"
  | Named (VBool true) => "true"
  | Named (VBool false) => "false"
  | Named (VNumber n) => pretty (integer n)
  | Named VNaN => "NaN"
  | Named (VString s) => s
  | NativeName ObjectPrototype => "[object Object]"
  | NativeName (NativeFunction f) => "function " +:+ f +:+ "() { [native code] }"
  end.

(** ** Plain objects used as dictionaries *)

(** The members of [Object.prototype] that are functions; [__proto__], an
    accessor, is the one other member. *)
Definition Object_prototype_method (k : string) : option native :=
  if bool_decide (k = "constructor") then Some (NativeFunction "Object")
  else if bool_decide
            (k ∈ ["__defineGetter__"; "__defineSetter__"; "hasOwnProperty";
                  "__lookupGetter__"; "__lookupSetter__"; "isPrototypeOf";
                  "propertyIsEnumerable"; "toString"; "valueOf";
                  "toLocaleString"])
       then Some (NativeFunction k)
       else None.

(** The own data property of a caller's object under a key. *)
Fixpoint assoc {A} (k : string) (properties : list (string * A)) : option A :=
  match properties with
  | [] => None
  | entry :: rest => if bool_decide (entry.1 = k) then Some entry.2
                     else assoc k rest
  end.

(** What the options object inherits from: [Object.prototype] as every
    [{}] does at first, nothing after [__proto__] was set to [null], or the
    caller's object that [__proto__] was set to. *)
Inductive prototype : Type :=
  | InheritsObjectPrototype
  | InheritsNull
  | InheritsObject (properties : list (string * data)).

(** [_options:{}]: its own properties and its prototype. *)
Record options_object : Type := mkOptions {
  options_own : gmap string data;
  options_prototype : prototype
}.

(** [_redirects:{}]: only primitives are written to it, so its prototype is
    [Object.prototype] ([redirects_inherits]) or, once [__proto__] was set
    to [null], nothing. *)
Record redirects_object : Type := mkRedirects {
  redirects_own : gmap string primitive;
  redirects_inherits : bool
}.

(** The own property under a key, and the number of own properties. *)
#[global] Instance options_lookup : Lookup string data options_object :=
  λ k o, options_own o !! k.
#[global] Instance redirects_lookup : Lookup string primitive redirects_object :=
  λ k r, redirects_own r !! k.
#[global] Instance options_size : Size options_object :=
  λ o, size (options_own o).
#[global] Instance redirects_size : Size redirects_object :=
  λ r, size (redirects_own r).

(** What [obj[k]] finds past the own properties of the options object: a
    data property of the caller's object it inherits from, a method of
    [Object.prototype], or for [__proto__] the prototype itself, which the
    inherited getter returns. *)
Definition options_inherited (p : prototype) (k : string) : option value :=
  match p with
  | InheritsNull => None
  | InheritsObjectPrototype =>
      if bool_decide (k = "__proto__") then Some (Native ObjectPrototype)
      else Native <$> Object_prototype_method k
  | InheritsObject properties =>
      match assoc k properties with
      | Some d => Some (Data d)
      | None =>
          if bool_decide (k = "__proto__") then Some (Data (Object properties))
          else Native <$> Object_prototype_method k
      end
  end.

(** [this._options[k]]: a property found nowhere reads as [undefined]. *)
Definition options_get (o : options_object) (k : string) : value :=
  match o !! k with
  | Some d => Data d
  | None => default (Data (Primitive VUndefined))
              (options_inherited (options_prototype o) k)
  end.

(** Whether a write under [__proto__] reaches the setter that
    [Object.prototype] provides: the chain of prototypes ends there and no
    data property of that name comes first. *)
Definition options_has_setter (o : options_object) : bool :=
  match o !! "__proto__" with
  | Some _ => false
  | None =>
      match options_prototype o with
      | InheritsObjectPrototype => true
      | InheritsNull => false
      | InheritsObject properties =>
          match assoc "__proto__" properties with
          | Some _ => false
          | None => true
          end
      end
  end.

(** [this._options[k] = v]: an own property is created or overwritten,
    except that the setter of [__proto__], where the write reaches it,
    changes the prototype for an object or [null] and ignores any other
    value. *)
Definition options_set (o : options_object) (k : string) (v : data)
  : options_object :=
  if bool_decide (k = "__proto__") && options_has_setter o
  then match v with
       | Object properties =>
           {| options_own := options_own o;
              options_prototype := InheritsObject properties |}
       | Primitive VNull =>
           {| options_own := options_own o;
              options_prototype := InheritsNull |}
       | Primitive _ => o
       end
  else {| options_own := <[k := v]> (options_own o);
          options_prototype := options_prototype o |}.

(** What [obj[k]] finds past the own properties of the redirects object. *)
Definition redirects_inherited (inherits : bool) (k : string) : option name :=
  if inherits
  then if bool_decide (k = "__proto__") then Some (NativeName ObjectPrototype)
       else NativeName <$> Object_prototype_method k
  else None.

(** [this._redirects[k]] *)
Definition redirects_get (r : redirects_object) (k : string) : name :=
  match r !! k with
  | Some p => Named p
  | None => default (Named VUndefined)
              (redirects_inherited (redirects_inherits r) k)
  end.

Definition redirects_has_setter (r : redirects_object) : bool :=
  match r !! "__proto__" with
  | Some _ => false
  | None => redirects_inherits r
  end.

(** [this._redirects[k] = v], with [v] a primitive: under [__proto__] the
    setter, where reached, takes the prototype away for [null] and ignores
    any other primitive. *)
Definition redirects_set (r : redirects_object) (k : string) (v : primitive)
  : redirects_object :=
  if bool_decide (k = "__proto__") && redirects_has_setter r
  then match v with
       | VNull => {| redirects_own := redirects_own r;
                     redirects_inherits := false |}
       | _ => r
       end
  else {| redirects_own := <[k := v]> (redirects_own r);
          redirects_inherits := redirects_inherits r |}.

(** ** State, errors and the monad the methods run in *)

(** [var ModuleRegistry = { _options:{}, _redirects:{}, ... }] *)
Record ModuleRegistry : Type := mkModuleRegistry {
  _options : options_object;
  _redirects : redirects_object
}.

(** The registry together with what the loader has been told: the arguments
    of every [_options.loader.config(path,options)] call, oldest first. *)
Record World : Type := mkWorld {
  this : ModuleRegistry;
  loader_config : list (primitive * data)
}.

Definition initial : World :=
  {| this := {| _options := {| options_own := ∅;
                               options_prototype := InheritsObjectPrototype |};
                _redirects := {| redirects_own := ∅;
                                 redirects_inherits := true |} |};
     loader_config := [] |}.

(** [new Error(message)] *)
Inductive error : Type := Error (message : string).

Inductive completion (A : Type) : Type :=
  | Normal (a : A)
  | Throw (e : error).
Arguments Normal {A} a.
Arguments Throw {A} e.

Definition M (A : Type) : Type := World → completion A * World.

#[global] Instance M_ret : MRet M := λ A a w, (Normal a, w).

(** Sequencing: a statement that throws ends the method, keeping the state
    reached so far. *)
#[global] Instance M_bind : MBind M := λ A B k m w,
  match m w with
  | (Normal a, w') => k a w'
  | (Throw e, w') => (Throw e, w')
  end.

Definition throw {A} (e : error) : M A := λ w, (Throw e, w).

Definition read_options (k : string) : M value :=
  λ w, (Normal (options_get (_options (this w)) k), w).

Definition read_redirects (k : string) : M name :=
  λ w, (Normal (redirects_get (_redirects (this w)) k), w).

Definition write_options (k : string) (v : data) : M unit :=
  λ w, (Normal tt,
        {| this := {| _options := options_set (_options (this w)) k v;
                      _redirects := _redirects (this w) |};
           loader_config := loader_config w |}).

Definition write_redirects (k : string) (v : primitive) : M unit :=
  λ w, (Normal tt,
        {| this := {| _options := _options (this w);
                      _redirects := redirects_set (_redirects (this w)) k v |};
           loader_config := loader_config w |}).

(** [_options.loader.config(path,options)]: the loader is outside the
    repository; the call is recorded. *)
Definition config (path : primitive) (options : data) : M unit :=
  λ w, (Normal tt,
        {| this := this w;
           loader_config := loader_config w ++ [(path, options)] |}).

Definition dquote : ascii := "034"%char.

(** The message of the error [getModule] throws. *)
Definition path_required : string :=
  "ModuleRegistry.getModule(path): " +:+ String dquote "path" +:+
  String dquote " is a required parameter.".

(** ** The registry's methods *)

Section Registry.

(** [_options.loader.toUrl]: the loader's resolution of a path to its
    absolute form, a total function of the path; what it returns is used
    as a property key only, and [toUrl] here gives that key. *)
Variable toUrl : name → string.

Definition registerModule (path : primitive) (options : data)
    (alias : primitive) : M value :=
  write_options (toUrl path) options;;
  (if truthy alias then write_redirects (to_key alias) path else mret tt);;
  config path options;;
  mret (Data (Primitive VUndefined)).

Definition getRedirect (path : name) : M name :=
  r ← read_redirects (to_key path);
  mret (js_or r path).

Definition getModule (path : name) : M value :=
  if negb (truthy path) then throw (Error path_required)
  else
    o ← read_options (to_key path);
    if truthy o then mret o else read_options (toUrl path).

(** A call a client can make, and the states clients can bring about. *)
Inductive call : Type :=
  | RegisterModule (path : primitive) (options : data) (alias : primitive)
  | GetRedirect (path : name)
  | GetModule (path : name).

Definition perform (c : call) : M value :=
  match c with
  | RegisterModule path options alias => registerModule path options alias
  | GetRedirect path => r ← getRedirect path; mret (name_value r)
  | GetModule path => getModule path
  end.

Inductive reachable : World → Prop :=
  | reachable_initial : reachable initial
  | reachable_perform w c : reachable w → reachable (perform c w).2.

End Registry.

(** Three loaders to run the methods with: one that leaves every path as it
    is, one that puts a base directory in front of every path (and does so
    again when given its own result), and one that leaves a path beginning
    with a slash as it is and puts the base directory in front of any
    other. *)
Definition toUrl_same (path : name) : string := to_key path.

Definition toUrl_base (path : name) : string := "/base/" +:+ to_key path.

Definition toUrl_absolute (path : name) : string :=
  if String.prefix "/" (to_key path) then to_key path
  else "/base/" +:+ to_key path.

(** Options to register. *)
Definition options1 : data := Object [("id", Primitive (VString "one"))].
Definition options2 : data := Object [("id", Primitive (VString "two"))].
Definition options7 : data := Object [("id", Primitive (VString "seven"))].

(** ** What clients do with the registry, and the specification's reading *)

(** [getModule(getRedirect(alias))]: the lookup of a module by its alias. *)
Definition getModule_of_redirect (toUrl : name → string) (alias : name)
  : M value :=
  path ← getRedirect alias;
  getModule toUrl path.

(** Register [path] with [alias], register options under [path] again,
    then look the module up by its alias. *)
Definition round_trip (toUrl : name → string)
    (path : primitive) (options1 : data) (alias : primitive)
    (options : data) (alias2 : primitive) : M value :=
  registerModule toUrl path options1 alias;;
  registerModule toUrl path options alias2;;
  getModule_of_redirect toUrl alias.

(** Register two paths in turn under one alias, then resolve the alias. *)
Definition register_twice (toUrl : name → string)
    (path1 : primitive) (options1 : data) (path2 : primitive)
    (options2 : data) (alias : primitive) : M name :=
  registerModule toUrl path1 options1 alias;;
  registerModule toUrl path2 options2 alias;;
  getRedirect alias.

(** The specification's reading of [getRedirect], by presence of the key:
    the target if a redirect is registered, else the name. *)
Definition redirect_by_presence (w : World) (n : name) : name :=
  match _redirects (this w) !! to_key n with
  | Some target => Named target
  | None => n
  end.

(** The specification's reading of [getModule] on a path that is given, by
    presence of the key: what is stored under the path, otherwise what is
    stored under its absolute form, otherwise [undefined]. *)
Definition module_by_presence (toUrl : name → string) (w : World)
    (path : name) : value :=
  match _options (this w) !! to_key path with
  | Some options => Data options
  | None =>
      match _options (this w) !! toUrl path with
      | Some options => Data options
      | None => Data (Primitive VUndefined)
      end
  end.

(** No property is inherited under the key: a read that finds no own
    property gives [undefined]. In a registry whose objects still have the
    prototype they began with, these are the keys that are not names of
    members of [Object.prototype]. *)
Definition options_inherits_nothing (w : World) (k : string) : Prop :=
  options_inherited (options_prototype (_options (this w))) k = None.

Definition redirects_inherits_nothing (w : World) (k : string) : Prop :=
  redirects_inherited (redirects_inherits (_redirects (this w))) k = None.

(** The own property of the options object under a key, [undefined] when
    there is none. *)
Definition options_own_get (w : World) (k : string) : value :=
  match _options (this w) !! k with
  | Some options => Data options
  | None => Data (Primitive VUndefined)
  end.

(** A registry in which [null] options are stored under [/base/x] and an
    object under the absolute form of [/base/x]. *)
Definition null_then_object : World :=
  (registerModule toUrl_base (VString "/base/x") options1 VUndefined
     (registerModule toUrl_base (VString "x") (Primitive VNull) VUndefined
        initial).2).2.

(** A registry in which the alias [a] is recorded with the empty path. *)
Definition alias_of_empty_path : World :=
  (registerModule toUrl_same (VString "") options1 (VString "a") initial).2.

(** A registry in which options are stored under [/base/x], the absolute
    form of [x]. *)
Definition x_registered : World :=
  (registerModule toUrl_base (VString "x") options7 VUndefined initial).2.

(** A registry in which [null] options are stored under the empty key. *)
Definition null_under_empty : World :=
  (registerModule toUrl_same (VString "") (Primitive VNull) VUndefined
     initial).2.

(** A registry in which the alias [0] is recorded for the path [x]. *)
Definition alias_zero : World :=
  (registerModule toUrl_base (VString "x") options1 (VString "0") initial).2.

(** ** Sequences of calls, and the loader's view of the registry *)

(** A client's calls one after the other. A call that throws changes
    nothing further; a client that catches the error goes on from the
    state the call left. *)
Definition perform_all (toUrl : name → string) (calls : list call)
    (w : World) : World :=
  foldl (λ w' c, (perform toUrl c w').2) w calls.

Definition is_register (c : call) : bool :=
  match c with
  | RegisterModule _ _ _ => true
  | GetRedirect _ | GetModule _ => false
  end.

(** The [config] calls the loader has received, replayed in order as
    writes of the options under the key of the resolved path. *)
Definition options_of_config (toUrl : name → string)
    (log : list (primitive * data)) : options_object :=
  foldl (λ obj entry, options_set obj (toUrl (Named entry.1)) entry.2)
        (_options (this initial)) log.

(** ** The bound-module lifecycle *)

Module BoundModule.

(** Modelled from the spec: the BoundModule state machine of sections 3,
    4.2, 4.3, 5 and 9; the repository's source for it (the hydrator, the
    context monitors, mount and unmount) is not among the source files.
    States are Unmounted (initial) and Mounted. *)
Inductive lifecycle : Type := Unmounted | Mounted.

#[global] Instance lifecycle_eq_dec : EqDecision lifecycle.
Proof. solve_decision. Defined.

(** Modelled from the spec: a BoundModule, with the [matches] flag of the
    monitor of each Condition term of its ContextExpression, its lifecycle
    state, the handle of its module instance or none, whether an import is
    in flight, and the latest desired state (section 9). [live] lists the
    module instances constructed for it and not yet destroyed, [constructed]
    counts the constructor calls; they name the instances. *)
Record t : Type := mk {
  matches : list bool;
  state : lifecycle;
  instance : option nat;
  importing : bool;
  desired : bool;
  live : list nat;
  constructed : nat
}.

(** Modelled from the spec: [currentlyMatches], the AND of all constituent
    monitors' [matches] flags, true for zero terms (section 4.2). *)
Definition currentlyMatches (ms : list bool) : bool := forallb id ms.

(** Modelled from the spec: the request to mount. Sets the desired state;
    a no-op if already Mounted (section 8); otherwise the import begins,
    unless one is already in flight (section 5: converge, do not race two
    overlapping transitions). *)
Definition mount (bm : t) : t :=
  match state bm with
  | Mounted =>
      {| matches := matches bm; state := state bm; instance := instance bm;
         importing := importing bm; desired := true;
         live := live bm; constructed := constructed bm |}
  | Unmounted =>
      {| matches := matches bm; state := state bm; instance := instance bm;
         importing := true; desired := true;
         live := live bm; constructed := constructed bm |}
  end.

(** Modelled from the spec: Mounted to Unmounted, which invokes the
    captured destructor and discards the instance handle (section 4.3). *)
Definition destroy (bm : t) : t :=
  {| matches := matches bm; state := Unmounted; instance := None;
     importing := importing bm; desired := desired bm;
     live := match instance bm with
             | Some i => filter (λ j, j ≠ i) (live bm)
             | None => live bm
             end;
     constructed := constructed bm |}.

(** Modelled from the spec: the request to unmount. Sets the desired
    state; a no-op if already Unmounted (section 8). *)
Definition unmount (bm : t) : t :=
  let bm' :=
    {| matches := matches bm; state := state bm; instance := instance bm;
       importing := importing bm; desired := false;
       live := live bm; constructed := constructed bm |} in
  match state bm with
  | Unmounted => bm'
  | Mounted => destroy bm'
  end.

(** Modelled from the spec: the constructor is invoked, its result is
    captured as the instance handle and the module is Mounted. *)
Definition construct (bm : t) : t :=
  {| matches := matches bm; state := Mounted;
     instance := Some (constructed bm);
     importing := false; desired := desired bm;
     live := constructed bm :: live bm;
     constructed := S (constructed bm) |}.

(** Modelled from the spec: what can happen to a BoundModule. A monitor's
    change notification carries the new value of its flag; the import in
    flight resolves (and the constructor returns) or fails; the caller
    asks for a mount or an unmount. *)
Inductive event : Type :=
  | Change (term : nat) (now : bool)
  | ImportResolved
  | ImportFailed
  | CallMount
  | CallUnmount.

(** Modelled from the spec: sections 4.2 and 4.3. A change stores the
    monitor's flag and drives the lifecycle with the recomputed AND; a
    resolved import mounts, and then immediately unmounts if the context
    has flipped to false in the meantime; a failed import leaves the
    module Unmounted and is not retried. *)
Definition step (e : event) (bm : t) : t :=
  match e with
  | Change i b =>
      let bm' :=
        {| matches := <[i := b]> (matches bm); state := state bm;
           instance := instance bm; importing := importing bm;
           desired := desired bm; live := live bm;
           constructed := constructed bm |} in
      if currentlyMatches (matches bm') then mount bm' else unmount bm'
  | ImportResolved =>
      if importing bm
      then if desired bm then construct bm else destroy (construct bm)
      else bm
  | ImportFailed =>
      if importing bm
      then {| matches := matches bm; state := Unmounted;
              instance := instance bm; importing := false;
              desired := desired bm; live := live bm;
              constructed := constructed bm |}
      else bm
  | CallMount => mount bm
  | CallUnmount => unmount bm
  end.

(** Modelled from the spec: the hydrator constructs the BoundModule
    Unmounted and performs the first evaluation synchronously (section
    4.4); [ms] are the monitors' flags at that time. *)
Definition hydrate (ms : list bool) : t :=
  let bm :=
    {| matches := ms; state := Unmounted; instance := None;
       importing := false; desired := false; live := []; constructed := 0 |} in
  if currentlyMatches ms then mount bm else bm.

(** The events that come from the monitors and from imports that succeed,
    as opposed to failures and explicit calls. *)
Definition automatic (e : event) : bool :=
  match e with
  | Change _ _ | ImportResolved => true
  | ImportFailed | CallMount | CallUnmount => false
  end.

(** The states a BoundModule goes through under events that [allowed]
    admits. *)
Inductive reachable (allowed : event → bool) : t → Prop :=
  | reachable_hydrate ms : reachable allowed (hydrate ms)
  | reachable_step e bm :
      allowed e = true → reachable allowed bm → reachable allowed (step e bm).

Definition any_event (e : event) : bool := true.




(** An event that puts the module in step with its context whatever went
    before: a monitor's change, a [mount()] while all terms match, an
    [unmount()] while some term does not. *)
Definition resynchronises (e : event) (bm : t) : bool :=
  match e with
  | Change _ _ => true
  | CallMount => currentlyMatches (matches bm)
  | CallUnmount => negb (currentlyMatches (matches bm))
  | ImportResolved | ImportFailed => false
  end.

(** An event that leaves a module that is in step with its context in
    step: an import that resolves, and the failure of an import that is no
    longer wanted. *)
Definition keeps_in_step (e : event) (bm : t) : bool :=
  match e with
  | ImportResolved => true
  | ImportFailed => negb (importing bm && desired bm)
  | Change _ _ | CallMount | CallUnmount => false
  end.

(** The states in which the module is in step with its context: since the
    event that last put it in step, the initial evaluation included, no
    import that was still wanted has failed and no explicit [mount()] or
    [unmount()] has gone against the context. *)
Inductive in_step : t → Prop :=
  | in_step_hydrate ms : in_step (hydrate ms)
  | in_step_resynchronise e bm :
      reachable any_event bm → resynchronises e bm = true →
      in_step (step e bm)
  | in_step_keep e bm :
      in_step bm → keeps_in_step e bm = true → in_step (step e bm).


End BoundModule.
(** * Properties of the module registry *)

(** ** Values and keys *)

#[global] Arguments to_key : simpl never.
#[global] Arguments options_get : simpl never.
#[global] Arguments options_set : simpl never.
#[global] Arguments redirects_get : simpl never.
#[global] Arguments redirects_set : simpl never.

Lemma truthy_VString s : truthy (VString s) = true ↔ s ≠ "".
Proof.
  unfold truthy, truthy_primitive.
  destruct (String.eqb_spec s "") as [->|Hne]; simpl.
  - split; [discriminate | congruence].
  - split; [intros _; exact Hne | reflexivity].
Qed.

Lemma js_or_truthy {A} `{Truthy A} (a b : A) :
  truthy a = true → js_or a b = a.
Proof. unfold js_or. by intros ->. Qed.

Lemma js_or_falsy {A} `{Truthy A} (a b : A) :
  truthy a = false → js_or a b = b.
Proof. unfold js_or. by intros ->. Qed.

Lemma pretty_N_go_nonempty (x : N) (s : string) :
  s ≠ "" → pretty_N_go x s ≠ "".
Proof.
  revert s. induction (N.lt_wf_0 x) as [x _ IH]. intros s Hs.
  destruct (decide (x = 0%N)) as [->|Hx].
  - by rewrite pretty_N_go_0.
  - rewrite pretty_N_go_step by lia.
    apply IH; [apply N.div_lt; lia | discriminate].
Qed.

Lemma pretty_N_nonempty (x : N) : pretty x ≠ "".
Proof.
  unfold pretty, pretty_N. case_decide as Hx; [discriminate|].
  rewrite pretty_N_go_step by lia.
  apply pretty_N_go_nonempty. discriminate.
Qed.

Lemma pretty_Z_nonempty (n : Z) : pretty n ≠ "".
Proof.
  destruct n as [|p|p]; unfold pretty, pretty_Z.
  - discriminate.
  - apply pretty_N_nonempty.
  - discriminate.
Qed.

(** Only the empty string has the empty key, and it is falsy. *)
Lemma to_key_empty (n : name) : to_key n = "" → n = Named (VString "").
Proof.
  destruct n as [[| |[]|i| |s]|[|f]]; unfold to_key; simpl; try discriminate.
  - intros H. by destruct (pretty_Z_nonempty (integer i)).
  - by intros ->.
Qed.

(** ** Reads and writes of the two objects *)

Lemma options_get_own (o : options_object) k d :
  o !! k = Some d → options_get o k = Data d.
Proof. unfold options_get. by intros ->. Qed.

Lemma options_get_not_own (o : options_object) k :
  o !! k = None →
  options_get o k
  = default (Data (Primitive VUndefined))
      (options_inherited (options_prototype o) k).
Proof. unfold options_get. by intros ->. Qed.

(** Under any key but [__proto__] a write is an insertion. *)
Lemma options_set_ordinary (o : options_object) k v :
  k ≠ "__proto__" →
  options_set o k v
  = {| options_own := <[k := v]> (options_own o);
       options_prototype := options_prototype o |}.
Proof.
  intros Hk. unfold options_set.
  by rewrite (bool_decide_eq_false_2 _ Hk).
Qed.

(** A write either inserts under its key or leaves the own properties as
    they are. *)
Lemma options_set_own (o : options_object) k v :
  options_own (options_set o k v) = <[k := v]> (options_own o) ∨
  options_own (options_set o k v) = options_own o.
Proof.
  unfold options_set.
  destruct (bool_decide (k = "__proto__") && options_has_setter o);
    [|by left].
  right. by destruct v as [[]|].
Qed.

Lemma options_set_lookup_ne (o : options_object) k k' v :
  k' ≠ k → options_set o k v !! k' = o !! k'.
Proof.
  intros Hne. unfold lookup, options_lookup.
  destruct (options_set_own o k v) as [-> | ->]; [|done].
  by apply lookup_insert_ne.
Qed.

Lemma options_set_keeps (o : options_object) k k' v :
  is_Some (o !! k') → is_Some (options_set o k v !! k').
Proof.
  unfold lookup, options_lookup.
  destruct (options_set_own o k v) as [-> | ->]; [|done].
  intros H. apply lookup_insert_is_Some'. by right.
Qed.

Lemma options_set_from (o : options_object) k k' v d :
  options_set o k v !! k' = Some d → (k' = k ∧ d = v) ∨ o !! k' = Some d.
Proof.
  unfold lookup, options_lookup.
  destruct (options_set_own o k v) as [-> | ->]; [|by right].
  rewrite lookup_insert_Some. intros [[-> ->]|[_ H]]; [by left | by right].
Qed.

Lemma options_set_size (o : options_object) k v :
  (size (options_set o k v) ≤ S (size o))%nat.
Proof.
  unfold size, options_size.
  destruct (options_set_own o k v) as [-> | ->]; [|lia].
  rewrite map_size_insert. destruct (options_own o !! k); simpl; lia.
Qed.

Lemma redirects_get_own (r : redirects_object) k p :
  r !! k = Some p → redirects_get r k = Named p.
Proof. unfold redirects_get. by intros ->. Qed.

Lemma redirects_get_not_own (r : redirects_object) k :
  r !! k = None →
  redirects_get r k
  = default (Named VUndefined)
      (redirects_inherited (redirects_inherits r) k).
Proof. unfold redirects_get. by intros ->. Qed.

Lemma redirects_set_ordinary (r : redirects_object) k v :
  k ≠ "__proto__" →
  redirects_set r k v
  = {| redirects_own := <[k := v]> (redirects_own r);
       redirects_inherits := redirects_inherits r |}.
Proof.
  intros Hk. unfold redirects_set.
  by rewrite (bool_decide_eq_false_2 _ Hk).
Qed.

Lemma redirects_set_own (r : redirects_object) k v :
  redirects_own (redirects_set r k v) = <[k := v]> (redirects_own r) ∨
  redirects_own (redirects_set r k v) = redirects_own r.
Proof.
  unfold redirects_set.
  destruct (bool_decide (k = "__proto__") && redirects_has_setter r);
    [|by left].
  right. by destruct v.
Qed.

Lemma redirects_set_lookup_ne (r : redirects_object) k k' v :
  k' ≠ k → redirects_set r k v !! k' = r !! k'.
Proof.
  intros Hne. unfold lookup, redirects_lookup.
  destruct (redirects_set_own r k v) as [-> | ->]; [|done].
  by apply lookup_insert_ne.
Qed.

Lemma redirects_set_keeps (r : redirects_object) k k' v :
  is_Some (r !! k') → is_Some (redirects_set r k v !! k').
Proof.
  unfold lookup, redirects_lookup.
  destruct (redirects_set_own r k v) as [-> | ->]; [|done].
  intros H. apply lookup_insert_is_Some'. by right.
Qed.

Lemma redirects_set_from (r : redirects_object) k k' v p :
  redirects_set r k v !! k' = Some p → (k' = k ∧ p = v) ∨ r !! k' = Some p.
Proof.
  unfold lookup, redirects_lookup.
  destruct (redirects_set_own r k v) as [-> | ->]; [|by right].
  rewrite lookup_insert_Some. intros [[-> ->]|[_ H]]; [by left | by right].
Qed.

Lemma redirects_set_size (r : redirects_object) k v :
  (size (redirects_set r k v) ≤ S (size r))%nat.
Proof.
  unfold size, redirects_size.
  destruct (redirects_set_own r k v) as [-> | ->]; [|lia].
  rewrite map_size_insert. destruct (redirects_own r !! k); simpl; lia.
Qed.

Lemma options_lookup_mk own p (k : string) :
  {| options_own := own; options_prototype := p |} !! k = own !! k.
Proof. reflexivity. Qed.

Lemma redirects_lookup_mk own b (k : string) :
  {| redirects_own := own; redirects_inherits := b |} !! k = own !! k.
Proof. reflexivity. Qed.

Lemma options_set_lookup_same (o : options_object) k v :
  k ≠ "__proto__" → options_set o k v !! k = Some v.
Proof.
  intros Hk. rewrite options_set_ordinary, options_lookup_mk by done.
  apply lookup_insert_eq.
Qed.

Lemma options_get_set_same (o : options_object) k v :
  k ≠ "__proto__" → options_get (options_set o k v) k = Data v.
Proof. intros Hk. by apply options_get_own, options_set_lookup_same. Qed.

Lemma options_get_set_ne (o : options_object) k k' v :
  k' ≠ k → k ≠ "__proto__" →
  options_get (options_set o k v) k' = options_get o k'.
Proof.
  intros Hne Hk. unfold options_get.
  rewrite options_set_lookup_ne by done.
  by rewrite options_set_ordinary.
Qed.

Lemma redirects_set_lookup_same (r : redirects_object) k v :
  k ≠ "__proto__" → redirects_set r k v !! k = Some v.
Proof.
  intros Hk. rewrite redirects_set_ordinary, redirects_lookup_mk by done.
  apply lookup_insert_eq.
Qed.

Lemma redirects_get_set_same (r : redirects_object) k v :
  k ≠ "__proto__" → redirects_get (redirects_set r k v) k = Named v.
Proof. intros Hk. by apply redirects_get_own, redirects_set_lookup_same. Qed.

Lemma redirects_get_set_ne (r : redirects_object) k k' v :
  k' ≠ k → k ≠ "__proto__" →
  redirects_get (redirects_set r k v) k' = redirects_get r k'.
Proof.
  intros Hne Hk. unfold redirects_get.
  rewrite redirects_set_lookup_ne by done.
  by rewrite redirects_set_ordinary.
Qed.

(** Where nothing is inherited under a key, a read gives the own property
    or [undefined]. *)
Lemma options_get_plain (w : World) k :
  options_inherits_nothing w k →
  options_get (_options (this w)) k = options_own_get w k.
Proof.
  unfold options_inherits_nothing, options_get, options_own_get.
  intros ->. by destruct (_options (this w) !! k).
Qed.

(** ** The methods' equations *)

Section RegistryProperties.

Variable toUrl : name → string.

Lemma registerModule_eq path options alias w :
  registerModule toUrl path options alias w =
  (Normal (Data (Primitive VUndefined)),
   {| this :=
        {| _options := options_set (_options (this w)) (toUrl path) options;
           _redirects := if truthy alias
                         then redirects_set (_redirects (this w))
                                (to_key alias) path
                         else _redirects (this w) |};
      loader_config := loader_config w ++ [(path, options)] |}).
Proof.
  unfold registerModule, mbind, M_bind, write_options, config.
  destruct (truthy alias); reflexivity.
Qed.

Lemma getRedirect_eq path w :
  getRedirect path w =
  (Normal (js_or (redirects_get (_redirects (this w)) (to_key path)) path), w).
Proof. reflexivity. Qed.

Lemma getModule_eq path w :
  getModule toUrl path w =
  (if truthy path
   then Normal (js_or (options_get (_options (this w)) (to_key path))
                      (options_get (_options (this w)) (toUrl path)))
   else Throw (Error path_required),
   w).
Proof.
  unfold getModule, js_or. destruct (truthy path); simpl; [|reflexivity].
  unfold mbind, M_bind, read_options. simpl.
  destruct (truthy (options_get (_options (this w)) (to_key path)));
    reflexivity.
Qed.

(** Runs the calls at the head of a sequence by their equations. *)
Ltac run_calls :=
  unfold mbind, M_bind;
  repeat (first [ rewrite registerModule_eq
                | rewrite getRedirect_eq
                | rewrite getModule_eq ]; simpl).

(** No reachable registry has a redirect under the empty key: the guard
    [if (alias)] keeps it out. *)
Lemma reachable_no_empty_alias w :
  reachable toUrl w → _redirects (this w) !! "" = None.
Proof.
  induction 1 as [|w c Hw IH]; [reflexivity|].
  destruct c as [path options alias|path|path]; simpl.
  - rewrite registerModule_eq. simpl.
    destruct (truthy alias) eqn:Halias; [|exact IH].
    rewrite redirects_set_lookup_ne; [exact IH|].
    intros Hkey. symmetry in Hkey. apply to_key_empty in Hkey.
    injection Hkey as ->. discriminate.
  - exact IH.
  - rewrite getModule_eq. exact IH.
Qed.

(** The redirects object of a reachable registry inherits from
    [Object.prototype] or from nothing, and neither has a member under the
    empty key. *)
Lemma redirects_inherit_no_empty (inherits : bool) :
  redirects_inherited inherits "" = None.
Proof. by destruct inherits. Qed.

(** ** The claims *)

(** C3 (as amended). [getRedirect] never fails and leaves the state alone;
    for a name whose registered redirect has a truthy target it returns
    that target; for a name whose recorded target is falsy, and for a name
    with no registered redirect under whose key the redirects object
    inherits nothing, it returns the name unchanged. *)
Theorem getRedirect_identity_fallback (w : World) (n : name) :
  ∃ r, getRedirect n w = (Normal r, w) ∧
       match _redirects (this w) !! to_key n with
       | Some target => r = if truthy target then Named target else n
       | None => redirects_inherits_nothing w (to_key n) → r = n
       end.
Proof.
  rewrite getRedirect_eq. eexists; split; [reflexivity|].
  destruct (_redirects (this w) !! to_key n) as [target|] eqn:Hown.
  - by rewrite (redirects_get_own _ _ _ Hown).
  - unfold redirects_inherits_nothing. intros Hnone.
    by rewrite (redirects_get_not_own _ _ Hown), Hnone.
Qed.

(** C10 (as amended). Both lookups test truthiness, not key presence. For
    a truthy path, when the options stored under the path as given are
    falsy, [getModule] returns what [_options] reads under the absolute
    form of the path; when the target recorded for an alias is falsy,
    [getRedirect] returns the alias itself. [undefined], [null], [false],
    [0] and the empty string are all falsy. *)
Theorem lookups_test_truthiness
    (w : World) (path : name) (stored : data) (target : primitive) :
  (truthy path = true →
   _options (this w) !! to_key path = Some stored →
   truthy stored = false →
   getModule toUrl path w =
   (Normal (options_get (_options (this w)) (toUrl path)), w)) ∧
  (_redirects (this w) !! to_key path = Some target →
   truthy target = false →
   getRedirect path w = (Normal path, w)) ∧
  Forall (λ v : primitive, truthy v = false)
         [VUndefined; VNull; VBool false; VNumber zero; VString ""].
Proof.
  split; [|split].
  - intros Hpath Hstored Hfalsy.
    rewrite getModule_eq, Hpath, (options_get_own _ _ _ Hstored).
    by rewrite js_or_falsy.
  - intros Hstored Hfalsy.
    rewrite getRedirect_eq, (redirects_get_own _ _ _ Hstored).
    by rewrite js_or_falsy.
  - repeat constructor.
Qed.

(** C6. The read operations leave the whole state as it was, both maps
    included, whatever the argument and whether or not [getModule] throws;
    a call that changes the registry is a call of [registerModule]. *)
Theorem only_registerModule_mutates (w : World) (c : call) :
  (∀ arg, (getRedirect arg w).2 = w) ∧
  (∀ arg, (getModule toUrl arg w).2 = w) ∧
  (this (perform toUrl c w).2 ≠ this w →
   ∃ path options alias, c = RegisterModule path options alias).
Proof.
  split; [|split].
  - intros arg. by rewrite getRedirect_eq.
  - intros arg. by rewrite getModule_eq.
  - destruct c as [path options alias|path|path]; simpl.
    + intros _. by exists path, options, alias.
    + intros H. by destruct H.
    + rewrite getModule_eq. intros H. by destruct H.
Qed.

(** C8. A call of [registerModule] with a falsy alias (absent, that is
    [undefined], or the empty string) leaves the redirects exactly as they
    were, so [getRedirect] answers every name, that alias included, as it
    did before the call; and in a registry reached from the initial one
    through the three methods, [getRedirect('')] then returns ['']. *)
Theorem registerModule_falsy_alias
    (w : World) (path : primitive) (options : data) (alias : primitive) :
  truthy alias = false →
  let w' := (registerModule toUrl path options alias w).2 in
  _redirects (this w') = _redirects (this w) ∧
  (∀ name, (getRedirect name w').1 = (getRedirect name w).1) ∧
  (reachable toUrl w →
   (getRedirect (VString "") w').1 = Normal (Named (VString ""))).
Proof.
  intros Halias w'.
  assert (Hsame : _redirects (this w') = _redirects (this w)).
  { unfold w'. rewrite registerModule_eq. simpl. by rewrite Halias. }
  split; [exact Hsame|]. split.
  - intros n. rewrite !getRedirect_eq. simpl. by rewrite Hsame.
  - intros Hw. rewrite getRedirect_eq. simpl. rewrite Hsame.
    rewrite redirects_get_not_own
      by exact (reachable_no_empty_alias w Hw).
    by rewrite redirects_inherit_no_empty.
Qed.

(** C9 (as amended). [getModule] does not consult the redirects: its
    result is the same whatever the redirects object holds. So for a
    truthy alias with a registered redirect to a path whose options are
    stored, [getModule(alias)] completes and returns [undefined] when
    neither the alias nor its loader-resolved form is a key of the options
    and the options object inherits nothing under either key. *)
Theorem getModule_ignores_redirects
    (w : World) (alias : name) (path : primitive) (options : data) :
  truthy alias = true →
  _redirects (this w) !! to_key alias = Some path →
  _options (this w) !! toUrl path = Some options →
  (∀ (n : name) (redirects' : redirects_object),
     (getModule toUrl n
        {| this := {| _options := _options (this w);
                      _redirects := redirects' |};
           loader_config := loader_config w |}).1
     = (getModule toUrl n w).1) ∧
  (_options (this w) !! to_key alias = None →
   _options (this w) !! toUrl alias = None →
   options_inherits_nothing w (to_key alias) →
   options_inherits_nothing w (toUrl alias) →
   getModule toUrl alias w = (Normal (Data (Primitive VUndefined)), w)).
Proof.
  intros Halias _ _. split.
  - intros n redirects'. by rewrite !getModule_eq.
  - intros Hgiven Habsolute Hplain Hplain'.
    rewrite getModule_eq, Halias.
    rewrite (options_get_plain w _ Hplain), (options_get_plain w _ Hplain').
    unfold options_own_get. by rewrite Hgiven, Habsolute.
Qed.

(** C5 (as amended). For a truthy alias other than [__proto__] and a truthy
    second path, after [registerModule(p1, o1, a)] and
    [registerModule(p2, o2, a)] the alias has the one target [p2] and
    [getRedirect(a)] returns [p2]; registering [p2] under a further such
    alias makes that alias resolve to [p2] too and leaves the first alias
    resolving to [p2]: several aliases, one path. *)
Theorem last_registration_wins
    (w : World) (path1 : primitive) (options1 : data) (path2 : primitive)
    (options2 : data) (alias : primitive) :
  truthy alias = true →
  truthy path2 = true →
  to_key alias ≠ "__proto__" →
  ∃ w',
    register_twice toUrl path1 options1 path2 options2 alias w
      = (Normal (Named path2), w') ∧
    _redirects (this w') !! to_key alias = Some path2 ∧
    ∀ (alias' : primitive) (options' : data),
      truthy alias' = true → to_key alias' ≠ "__proto__" →
      let w'' := (registerModule toUrl path2 options' alias' w').2 in
      (getRedirect alias' w'').1 = Normal (Named path2) ∧
      (getRedirect alias w'').1 = Normal (Named path2).
Proof.
  intros Halias Hpath2 Hkey. unfold register_twice. run_calls.
  rewrite Halias.
  eexists; split; [|split].
  - rewrite redirects_get_set_same by done. by rewrite js_or_truthy.
  - simpl. by apply redirects_set_lookup_same.
  - intros alias' options' Halias' Hkey'. simpl.
    run_calls. rewrite Halias'.
    rewrite redirects_get_set_same by done.
    split; [by rewrite js_or_truthy|].
    destruct (decide (to_key alias = to_key alias')) as [Heq|Hne].
    + rewrite Heq, redirects_get_set_same by done. by rewrite js_or_truthy.
    + rewrite redirects_get_set_ne, redirects_get_set_same by done.
      by rewrite js_or_truthy.
Qed.

(** C1 (as amended). For a truthy alias other than [__proto__] and a truthy
    path that the loader does not resolve to [__proto__], in a registry in
    which [_options] reads nothing truthy under the path as given (or with
    a loader that resolves the path to its own key), after
    [registerModule(p, o1, a)] and [registerModule(p, o, a2)] the lookup
    [getModule(getRedirect(a))] returns [o]. *)
Theorem round_trip_returns_options
    (w : World) (path : primitive) (options1 : data) (alias : primitive)
    (options : data) (alias2 : primitive) :
  truthy alias = true →
  truthy path = true →
  to_key alias ≠ "__proto__" →
  toUrl path ≠ "__proto__" →
  truthy (options_get (_options (this w)) (to_key path)) = false ∨
    toUrl path = to_key path →
  (round_trip toUrl path options1 alias options alias2 w).1
  = Normal (Data options).
Proof.
  intros Halias Hpath Hkey Hurl Hstale.
  unfold round_trip, getModule_of_redirect. run_calls. rewrite Halias.
  assert (Hredirect :
    redirects_get
      (if truthy alias2
       then redirects_set
              (redirects_set (_redirects (this w)) (to_key alias) path)
              (to_key alias2) path
       else redirects_set (_redirects (this w)) (to_key alias) path)
      (to_key alias) = Named path).
  { apply redirects_get_own. destruct (truthy alias2).
    - destruct (decide (to_key alias = to_key alias2)) as [Heq|Hne].
      + rewrite <- Heq. by apply redirects_set_lookup_same.
      + rewrite redirects_set_lookup_ne by done.
        by apply redirects_set_lookup_same.
    - by apply redirects_set_lookup_same. }
  rewrite Hredirect, (js_or_truthy (Named path) _ Hpath). simpl.
  change (truthy (Named path)) with (truthy path). rewrite Hpath. simpl.
  f_equal. rewrite (options_get_set_same _ (toUrl path)) by done.
  destruct (decide (to_key path = toUrl path)) as [Hfix|Hne].
  - rewrite Hfix, options_get_set_same by done.
    unfold js_or. by destruct (truthy (Data options)).
  - destruct Hstale as [Hfalsy|Hfix]; [|by destruct Hne].
    apply js_or_falsy. by rewrite !options_get_set_ne.
Qed.

(** C2 (as amended). [getModule] throws exactly when the path is falsy,
    which for a string means empty and for an absent argument means
    [undefined]; the error is the one that names the required parameter.
    For a truthy path it completes and, where the options object inherits
    nothing under the key of the path and under the key of its resolved
    form, returns the options stored under the path as given when they are
    truthy, otherwise what is stored under the loader-resolved form of the
    path, otherwise [undefined]. Whether it throws or not, the state, with
    both maps, is as before the call. *)
Theorem getModule_correct (w : World) (path : name) :
  ((∃ e, (getModule toUrl path w).1 = Throw e) ↔ truthy path = false) ∧
  (truthy path = false →
   (getModule toUrl path w).1 = Throw (Error path_required)) ∧
  (truthy path = true →
   options_inherits_nothing w (to_key path) →
   options_inherits_nothing w (toUrl path) →
   (getModule toUrl path w).1 =
   Normal (let given := options_own_get w (to_key path) in
           if truthy given then given
           else options_own_get w (toUrl path))) ∧
  (getModule toUrl path w).2 = w ∧
  (∀ s, path = Named (VString s) → (truthy path = false ↔ s = "")) ∧
  truthy VUndefined = false.
Proof.
  rewrite getModule_eq. simpl.
  split; [|split; [|split; [|split; [|split]]]].
  - destruct (truthy path); split; try done.
    + by intros [e ?].
    + intros _. by eexists.
  - by intros ->.
  - intros -> Hplain Hplain'.
    by rewrite (options_get_plain w _ Hplain), (options_get_plain w _ Hplain').
  - done.
  - intros s ->. change (truthy (Named (VString s))) with (truthy (VString s)).
    destruct (truthy (VString s)) eqn:Hs.
    + apply truthy_VString in Hs. split; [discriminate | done].
    + split; [|done]. intros _.
      destruct (decide (s = "")) as [->|Hne]; [done|].
      apply truthy_VString in Hne. congruence.
  - done.
Qed.

End RegistryProperties.

(** ** The claims at concrete registries *)

(** C1, as stated, fails: with the empty alias no redirect is recorded and
    the lookup throws; with the empty path the alias resolves to itself
    and nothing is found; with options already stored under the path as
    given, those are returned; with the path [toString] the inherited
    function is returned; with the alias [__proto__] the write of the
    redirect is ignored; and with a path resolved to [__proto__] the write
    of string options is ignored. *)
Lemma round_trip_counterexample :
  (round_trip toUrl_same (VString "x") options1 (VString "")
     options2 VUndefined initial).1 ≠ Normal (Data options2) ∧
  (round_trip toUrl_base (VString "") options1 (VString "a")
     options2 VUndefined initial).1 ≠ Normal (Data options2) ∧
  (round_trip toUrl_base (VString "/base/x") options1 (VString "a")
     options2 VUndefined x_registered).1 ≠ Normal (Data options2) ∧
  (round_trip toUrl_base (VString "toString") options1 (VString "a")
     options2 VUndefined initial).1 ≠ Normal (Data options2) ∧
  (round_trip toUrl_base (VString "x") options1 (VString "__proto__")
     options2 VUndefined initial).1 ≠ Normal (Data options2) ∧
  (round_trip toUrl_same (VString "__proto__") options1 (VString "a")
     (Primitive (VString "cfg")) VUndefined initial).1
    ≠ Normal (Data (Primitive (VString "cfg"))).
Proof. repeat split; vm_compute; discriminate. Qed.

Lemma round_trip_returns_options_witness :
  truthy (VString "a") = true ∧
  truthy (VString "x") = true ∧
  (round_trip toUrl_base (VString "x") options1 (VString "a")
     options2 VUndefined initial).1 = Normal (Data options2).
Proof.
  split; [reflexivity|]. split; [reflexivity|].
  apply (round_trip_returns_options toUrl_base initial (VString "x")
           options1 (VString "a") options2 VUndefined).
  - reflexivity.
  - reflexivity.
  - discriminate.
  - discriminate.
  - left. reflexivity.
Defined.

(** C2, as stated, fails: in a registry that two registrations produce,
    [null] is stored under the path as given, and [getModule] returns the
    object stored under its absolute form; and in the initial registry
    [getModule('constructor')] returns the inherited function, not
    [undefined]. *)
Lemma getModule_counterexample :
  reachable toUrl_base null_then_object ∧
  _options (this null_then_object) !! "/base/x" = Some (Primitive VNull) ∧
  (getModule toUrl_base (VString "/base/x") null_then_object).1
    = Normal (Data options1) ∧
  (getModule toUrl_base (VString "/base/x") null_then_object).1
    ≠ Normal (module_by_presence toUrl_base null_then_object
                (VString "/base/x")) ∧
  (getModule toUrl_same (VString "constructor") initial).1
    = Normal (Native (NativeFunction "Object")) ∧
  (getModule toUrl_same (VString "constructor") initial).1
    ≠ Normal (module_by_presence toUrl_same initial (VString "constructor")).
Proof.
  split.
  - apply (reachable_perform toUrl_base _
             (RegisterModule (VString "/base/x") options1 VUndefined)).
    apply (reachable_perform toUrl_base _
             (RegisterModule (VString "x") (Primitive VNull) VUndefined)).
    apply reachable_initial.
  - repeat split; vm_compute; congruence.
Qed.

Lemma getModule_correct_witness :
  (getModule toUrl_base (VString "") x_registered).1
    = Throw (Error path_required) ∧
  (getModule toUrl_base (VString "x") x_registered).1
    = Normal (Data options7).
Proof.
  split.
  - apply (proj1 (proj2 (getModule_correct toUrl_base x_registered
                           (VString "")))).
    reflexivity.
  - apply (proj1 (proj2 (proj2 (getModule_correct toUrl_base x_registered
                                  (VString "x")))));
      reflexivity.
Defined.

(** C3, as stated, fails: the alias [a] has a registered redirect, to the
    empty path, and [getRedirect] returns the alias; and [toString], which
    has no registered redirect, is answered with the inherited function. *)
Lemma getRedirect_counterexample :
  _redirects (this alias_of_empty_path) !! "a" = Some (VString "") ∧
  (getRedirect (VString "a") alias_of_empty_path).1
    = Normal (Named (VString "a")) ∧
  (getRedirect (VString "a") alias_of_empty_path).1
    ≠ Normal (redirect_by_presence alias_of_empty_path (VString "a")) ∧
  _redirects (this initial) !! "toString" = None ∧
  (getRedirect (VString "toString") initial).1
    = Normal (NativeName (NativeFunction "toString")) ∧
  (getRedirect (VString "toString") initial).1
    ≠ Normal (redirect_by_presence initial (VString "toString")).
Proof. repeat split; vm_compute; congruence. Qed.

Lemma getRedirect_identity_fallback_witness :
  redirects_inherits_nothing initial "x" ∧
  getRedirect (VString "x") initial = (Normal (Named (VString "x")), initial).
Proof.
  split; [reflexivity|].
  destruct (getRedirect_identity_fallback initial (VString "x"))
    as (r & Hrun & Hr).
  rewrite Hrun. f_equal. f_equal.
  change (redirects_inherits_nothing initial "x" → r = Named (VString "x"))
    in Hr.
  apply Hr. reflexivity.
Defined.

(** C4 fails in the code for the key [__proto__]. Registered with the
    alias [__proto__], a path is not recorded: the write is ignored and the
    alias resolves to [Object.prototype]. Registered under a path that the
    loader resolves to [__proto__], options are not stored: an object
    becomes the prototype of [_options], so that its properties are found
    as if they were registered modules. *)
Lemma registerModule_proto_key :
  let w := (registerModule toUrl_base (VString "x") options1
              (VString "__proto__") initial).2 in
  let w' := (registerModule toUrl_same (VString "__proto__") options1
               VUndefined initial).2 in
  truthy (VString "__proto__") = true ∧
  _redirects (this w) !! "__proto__" = None ∧
  (getRedirect (VString "__proto__") w).1 = Normal (NativeName ObjectPrototype) ∧
  toUrl_same (VString "__proto__") = "__proto__" ∧
  _options (this w') !! "__proto__" = None ∧
  (getModule toUrl_same (VString "id") w').1
    = Normal (Data (Primitive (VString "one"))).
Proof. repeat split. Qed.

(** C5, as stated, fails: under the empty alias nothing is recorded, an
    empty second path makes the alias resolve to itself, and under the
    alias [__proto__] both writes are ignored. *)
Lemma last_registration_counterexample :
  (register_twice toUrl_same (VString "x") options1 (VString "y")
     options2 (VString "") initial).1 ≠ Normal (Named (VString "y")) ∧
  (register_twice toUrl_same (VString "x") options1 (VString "")
     options2 (VString "a") initial).1 ≠ Normal (Named (VString "")) ∧
  (register_twice toUrl_same (VString "x") options1 (VString "y")
     options2 (VString "__proto__") initial).1 ≠ Normal (Named (VString "y")).
Proof. repeat split; vm_compute; discriminate. Qed.

Lemma last_registration_wins_witness :
  truthy (VString "a") = true ∧
  truthy (VString "y") = true ∧
  (register_twice toUrl_same (VString "x") options1 (VString "y")
     options2 (VString "a") initial).1 = Normal (Named (VString "y")).
Proof.
  split; [reflexivity|]. split; [reflexivity|].
  destruct (last_registration_wins toUrl_same initial (VString "x")
              options1 (VString "y") options2 (VString "a")
              eq_refl eq_refl) as (w' & Hrun & _); [discriminate|].
  rewrite Hrun. reflexivity.
Defined.

Lemma only_registerModule_mutates_witness :
  this (perform toUrl_same
          (RegisterModule (VString "x") options1 (VString "a")) initial).2
    ≠ this initial ∧
  ∃ path options alias,
    RegisterModule (VString "x") options1 (VString "a")
    = RegisterModule path options alias.
Proof.
  assert (H : this (perform toUrl_same
                      (RegisterModule (VString "x") options1 (VString "a"))
                      initial).2 ≠ this initial).
  { intros H. apply (f_equal (λ r, _redirects r !! "a")) in H.
    vm_compute in H. discriminate. }
  split; [exact H|].
  exact (proj2 (proj2 (only_registerModule_mutates toUrl_same initial
                         (RegisterModule (VString "x") options1
                            (VString "a")))) H).
Defined.

Lemma registerModule_falsy_alias_witness :
  truthy (VString "") = false ∧
  truthy VUndefined = false ∧
  _redirects (this (registerModule toUrl_base (VString "y") options2
                      (VString "") x_registered).2)
    = _redirects (this x_registered) ∧
  _redirects (this (registerModule toUrl_base (VString "y") options2
                      VUndefined x_registered).2)
    = _redirects (this x_registered) ∧
  (getRedirect (VString "")
     (registerModule toUrl_base (VString "y") options2 (VString "")
        x_registered).2).1 = Normal (Named (VString "")).
Proof.
  split; [reflexivity|]. split; [reflexivity|]. split; [|split].
  - apply (registerModule_falsy_alias toUrl_base x_registered (VString "y")
             options2 (VString "")). reflexivity.
  - apply (registerModule_falsy_alias toUrl_base x_registered (VString "y")
             options2 VUndefined). reflexivity.
  - apply (registerModule_falsy_alias toUrl_base x_registered (VString "y")
             options2 (VString "")); [reflexivity|].
    apply (reachable_perform toUrl_base _
             (RegisterModule (VString "x") options7 VUndefined)).
    apply reachable_initial.
Defined.

(** C9, as stated, fails: [constructor], registered as an alias, is not a
    key of the options, nor is its resolved form, and [getModule] returns
    the inherited function; and the number [0] finds the redirect
    registered for the alias ['0'], but [getModule(0)] throws. *)
Lemma getModule_ignores_redirects_counterexample :
  let w := (registerModule toUrl_base (VString "x") options1
              (VString "constructor") initial).2 in
  (_redirects (this w) !! "constructor" = Some (VString "x") ∧
   _options (this w) !! "/base/x" = Some options1 ∧
   _options (this w) !! "constructor" = None ∧
   _options (this w) !! "/base/constructor" = None ∧
   (getModule toUrl_base (VString "constructor") w).1
     ≠ Normal (Data (Primitive VUndefined))) ∧
  (_redirects (this alias_zero) !! to_key (VNumber zero)
     = Some (VString "x") ∧
   _options (this alias_zero) !! "/base/x" = Some options1 ∧
   _options (this alias_zero) !! to_key (VNumber zero) = None ∧
   _options (this alias_zero) !! toUrl_base (VNumber zero) = None ∧
   (getModule toUrl_base (VNumber zero) alias_zero).1
     ≠ Normal (Data (Primitive VUndefined))).
Proof. repeat split; vm_compute; discriminate. Qed.

Lemma getModule_ignores_redirects_witness :
  let w := (registerModule toUrl_base (VString "x") options1
              (VString "a") initial).2 in
  truthy (VString "a") = true ∧
  _redirects (this w) !! "a" = Some (VString "x") ∧
  _options (this w) !! "/base/x" = Some options1 ∧
  getModule toUrl_base (VString "a") w
    = (Normal (Data (Primitive VUndefined)), w) ∧
  (getModule_of_redirect toUrl_base (VString "a") w).1
    = Normal (Data options1).
Proof.
  intros w.
  split; [reflexivity|]. split; [reflexivity|]. split; [reflexivity|].
  split; [|reflexivity].
  apply (getModule_ignores_redirects toUrl_base w (VString "a") (VString "x")
           options1); reflexivity.
Defined.

(** C10, as stated, fails: [null] is stored under the empty path, and
    [getModule('')] throws instead of returning what is stored under the
    absolute form. *)
Lemma lookups_test_truthiness_counterexample :
  _options (this null_under_empty) !! "" = Some (Primitive VNull) ∧
  truthy (Primitive VNull) = false ∧
  (getModule toUrl_same (VString "") null_under_empty).1
    = Throw (Error path_required) ∧
  (getModule toUrl_same (VString "") null_under_empty).1
    ≠ Normal (options_get (_options (this null_under_empty))
                (toUrl_same (VString ""))).
Proof. repeat split; vm_compute; discriminate. Qed.

Lemma lookups_test_truthiness_witness :
  (getModule toUrl_base (VString "/base/x") null_then_object).1
    = Normal (Data options1) ∧
  (getRedirect (VString "a") alias_of_empty_path).1
    = Normal (Named (VString "a")).
Proof.
  split.
  - rewrite (proj1 (lookups_test_truthiness toUrl_base null_then_object
                      (VString "/base/x") (Primitive VNull) VUndefined));
      reflexivity.
  - rewrite (proj1 (proj2 (lookups_test_truthiness toUrl_base
                             alias_of_empty_path (VString "a")
                             (Primitive VNull) (VString ""))));
      reflexivity.
Defined.

(** * Properties of the bound-module lifecycle *)

Module BoundModuleProperties.
Import BoundModule.













Lemma in_step_reachable bm : in_step bm → reachable any_event bm.
Proof.
  induction 1 as [ms|e bm Hbm _|e bm _ IH _].
  - apply reachable_hydrate.
  - by apply reachable_step.
  - by apply reachable_step.
Qed.


(** A module driven by its monitors and by imports that succeed is in step
    with its context throughout. *)
Lemma reachable_automatic_in_step bm : reachable automatic bm → in_step bm.
Proof.
  induction 1 as [ms|e bm He Hbm IH]; [apply in_step_hydrate|].
  destruct e as [i b| | | |]; try discriminate.
  - apply in_step_resynchronise; [|done]. by apply in_step_reachable.
  - by apply in_step_keep.
Qed.


End BoundModuleProperties.



(** * Further properties of the module registry *)

(** ** Writes that repeat, and writes under different keys *)

Lemma options_has_setter_insert (o : options_object) k v :
  k ≠ "__proto__" →
  options_has_setter
    {| options_own := <[k := v]> (options_own o);
       options_prototype := options_prototype o |}
  = options_has_setter o.
Proof.
  intros Hk. unfold options_has_setter.
  by rewrite options_lookup_mk, lookup_insert_ne.
Qed.

Lemma options_set_after_insert (o : options_object) k v k' v' :
  k ≠ "__proto__" → k' ≠ k →
  options_set {| options_own := <[k := v]> (options_own o);
                 options_prototype := options_prototype o |} k' v'
  = {| options_own := <[k := v]> (options_own (options_set o k' v'));
       options_prototype := options_prototype (options_set o k' v') |}.
Proof.
  intros Hk Hne. unfold options_set.
  rewrite options_has_setter_insert by done.
  destruct (bool_decide (k' = "__proto__") && options_has_setter o).
  - by destruct v' as [[]|].
  - simpl. f_equal. by apply insert_insert_ne.
Qed.

Lemma options_set_commute (o : options_object) k1 v1 k2 v2 :
  k1 ≠ k2 →
  options_set (options_set o k1 v1) k2 v2
  = options_set (options_set o k2 v2) k1 v1.
Proof.
  assert (Hone : ∀ o k v k' v',
            k ≠ "__proto__" → k' ≠ k →
            options_set (options_set o k' v') k v
            = options_set (options_set o k v) k' v').
  { clear. intros o k v k' v' Hk Hne.
    rewrite (options_set_ordinary _ k) by done.
    rewrite (options_set_ordinary o k) by done.
    by rewrite options_set_after_insert. }
  intros Hne. destruct (decide (k2 = "__proto__")) as [->|Hk2].
  - symmetry. by apply Hone.
  - apply Hone; [done | by intros ->].
Qed.

Lemma redirects_has_setter_insert (r : redirects_object) k v :
  k ≠ "__proto__" →
  redirects_has_setter
    {| redirects_own := <[k := v]> (redirects_own r);
       redirects_inherits := redirects_inherits r |}
  = redirects_has_setter r.
Proof.
  intros Hk. unfold redirects_has_setter.
  by rewrite redirects_lookup_mk, lookup_insert_ne.
Qed.

Lemma redirects_set_after_insert (r : redirects_object) k v k' v' :
  k ≠ "__proto__" → k' ≠ k →
  redirects_set {| redirects_own := <[k := v]> (redirects_own r);
                   redirects_inherits := redirects_inherits r |} k' v'
  = {| redirects_own := <[k := v]> (redirects_own (redirects_set r k' v'));
       redirects_inherits := redirects_inherits (redirects_set r k' v') |}.
Proof.
  intros Hk Hne. unfold redirects_set.
  rewrite redirects_has_setter_insert by done.
  destruct (bool_decide (k' = "__proto__") && redirects_has_setter r).
  - by destruct v'.
  - simpl. f_equal. by apply insert_insert_ne.
Qed.

Lemma redirects_set_commute (r : redirects_object) k1 v1 k2 v2 :
  k1 ≠ k2 →
  redirects_set (redirects_set r k1 v1) k2 v2
  = redirects_set (redirects_set r k2 v2) k1 v1.
Proof.
  assert (Hone : ∀ r k v k' v',
            k ≠ "__proto__" → k' ≠ k →
            redirects_set (redirects_set r k' v') k v
            = redirects_set (redirects_set r k v) k' v').
  { clear. intros r k v k' v' Hk Hne.
    rewrite (redirects_set_ordinary _ k) by done.
    rewrite (redirects_set_ordinary r k) by done.
    by rewrite redirects_set_after_insert. }
  intros Hne. destruct (decide (k2 = "__proto__")) as [->|Hk2].
  - symmetry. by apply Hone.
  - apply Hone; [done | by intros ->].
Qed.

Lemma options_set_twice (o : options_object) k v :
  k ≠ "__proto__" → options_set (options_set o k v) k v = options_set o k v.
Proof.
  intros Hk. rewrite !options_set_ordinary by done. simpl.
  by rewrite insert_insert_eq.
Qed.

Lemma redirects_set_twice (r : redirects_object) k v :
  k ≠ "__proto__" →
  redirects_set (redirects_set r k v) k v = redirects_set r k v.
Proof.
  intros Hk. rewrite !redirects_set_ordinary by done. simpl.
  by rewrite insert_insert_eq.
Qed.

Section RegistryFurther.

Variable toUrl : name → string.

Ltac by_equations :=
  unfold mbind, M_bind;
  repeat (first [ rewrite registerModule_eq
                | rewrite getRedirect_eq
                | rewrite getModule_eq ]; simpl).

(** ** What a single call keeps *)

Lemma perform_keeps_keys (c : call) (w : World) (k : string) :
  (is_Some (_options (this w) !! k) →
   is_Some (_options (this (perform toUrl c w).2) !! k)) ∧
  (is_Some (_redirects (this w) !! k) →
   is_Some (_redirects (this (perform toUrl c w).2) !! k)).
Proof.
  destruct c as [path options alias|path|path]; simpl; by_equations.
  - split; intros H.
    + by apply options_set_keeps.
    + destruct (truthy alias); [|done]. by apply redirects_set_keeps.
  - done.
  - done.
Qed.

Lemma perform_read (c : call) (w : World) :
  is_register c = false → (perform toUrl c w).2 = w.
Proof.
  destruct c as [path options alias|path|path]; simpl;
    [discriminate | done | by rewrite getModule_eq].
Qed.

(** ** Invariants of the reachable registries *)

Lemma reachable_registerModule (w : World) path options alias :
  reachable toUrl w →
  reachable toUrl (registerModule toUrl path options alias w).2.
Proof.
  intros Hw. exact (reachable_perform toUrl w
                      (RegisterModule path options alias) Hw).
Qed.

(** Every entry of the options was written by a registration that the
    loader has seen, under the key of its resolved path. *)
Lemma reachable_options_logged (w : World) (k : string) (v : data) :
  reachable toUrl w →
  _options (this w) !! k = Some v →
  ∃ path : primitive, (path, v) ∈ loader_config w ∧ k = toUrl path.
Proof.
  intros Hw. revert k v. induction Hw as [|w c Hw IH]; intros k v.
  { intros H. discriminate H. }
  destruct c as [path options alias|path|path]; simpl; by_equations;
    [|apply IH..].
  intros H. apply options_set_from in H as [[-> ->]|Hk].
  - exists path. split; [|done]. apply elem_of_app. right.
    by apply list_elem_of_singleton.
  - destruct (IH _ _ Hk) as (path' & Hin & ->).
    exists path'. split; [|done]. apply elem_of_app. by left.
Qed.

(** The object the options inherit from, if any, was registered. *)
Lemma reachable_prototype_logged (w : World) properties :
  reachable toUrl w →
  options_prototype (_options (this w)) = InheritsObject properties →
  ∃ path : primitive, (path, Object properties) ∈ loader_config w.
Proof.
  intros Hw. revert properties.
  induction Hw as [|w c Hw IH]; intros properties; [discriminate|].
  destruct c as [path options alias|path|path]; simpl; by_equations;
    [|apply IH..].
  assert (Hold : options_prototype (_options (this w))
                 = InheritsObject properties →
                 ∃ path' : primitive,
                   (path', Object properties) ∈
                   (loader_config w ++ [(path, options)])%list).
  { intros H. destruct (IH _ H) as [path' Hin].
    exists path'. apply elem_of_app. by left. }
  unfold options_set.
  destruct (bool_decide (toUrl path = "__proto__")
            && options_has_setter (_options (this w))); [|exact Hold].
  destruct options as [[]|properties']; simpl; try exact Hold;
    try discriminate.
  intros [= ->]. exists path. apply elem_of_app. right.
  by apply list_elem_of_singleton.
Qed.

(** Every redirect leads to a path that was registered. *)
Lemma reachable_redirects_logged (w : World) (k : string) (target : primitive) :
  reachable toUrl w →
  _redirects (this w) !! k = Some target →
  ∃ options, (target, options) ∈ loader_config w.
Proof.
  intros Hw. revert k target. induction Hw as [|w c Hw IH]; intros k target.
  { intros H. discriminate H. }
  destruct c as [path options alias|path|path]; simpl; by_equations;
    [|apply IH..].
  assert (Hold : ∀ k', _redirects (this w) !! k' = Some target →
                       ∃ options', (target, options') ∈
                                   (loader_config w ++ [(path, options)])%list).
  { intros k' Hk'. destruct (IH _ _ Hk') as [options' Hin].
    exists options'. apply elem_of_app. by left. }
  destruct (truthy alias); [|apply Hold].
  intros H. apply redirects_set_from in H as [[_ ->]|Hk]; [|by eapply Hold].
  exists options. apply elem_of_app. right. by apply list_elem_of_singleton.
Qed.

(** X1. Registering the same path, options and alias a second time, where
    neither the resolved path nor the alias is [__proto__], leaves the
    options and the redirects as the first registration left them; only
    the loader is configured once more. *)
Theorem registerModule_idempotent
    (w : World) (path : primitive) (options : data) (alias : primitive) :
  toUrl path ≠ "__proto__" →
  (truthy alias = true → to_key alias ≠ "__proto__") →
  let w1 := (registerModule toUrl path options alias w).2 in
  let w2 := (registerModule toUrl path options alias w1).2 in
  this w2 = this w1 ∧
  loader_config w2 = (loader_config w1 ++ [(path, options)])%list.
Proof.
  intros Hpath Halias. simpl. by_equations. split; [|done].
  rewrite options_set_twice by done. destruct (truthy alias); [|done].
  by rewrite redirects_set_twice by auto.
Qed.

(** X2. Two registrations whose resolved paths have different keys and
    whose aliases, when both are given, have different keys can be made in
    either order: the options and the redirects come out the same. *)
Theorem registerModule_commute
    (w : World) (path1 : primitive) (options1 : data) (alias1 : primitive)
    (path2 : primitive) (options2 : data) (alias2 : primitive) :
  toUrl path1 ≠ toUrl path2 →
  (truthy alias1 = true → truthy alias2 = true →
   to_key alias1 ≠ to_key alias2) →
  this (registerModule toUrl path2 options2 alias2
          (registerModule toUrl path1 options1 alias1 w).2).2
  = this (registerModule toUrl path1 options1 alias1
            (registerModule toUrl path2 options2 alias2 w).2).2.
Proof.
  intros Hpaths Haliases. by_equations. f_equal.
  - by apply options_set_commute.
  - destruct (truthy alias1), (truthy alias2); try done.
    apply redirects_set_commute. by apply Haliases.
Qed.

(** X3. Nothing a client calls removes a registration: a key of the options
    or of the redirects is still a key after any sequence of calls. *)
Theorem perform_all_keeps_keys (calls : list call) (w : World) (k : string) :
  (is_Some (_options (this w) !! k) →
   is_Some (_options (this (perform_all toUrl calls w)) !! k)) ∧
  (is_Some (_redirects (this w) !! k) →
   is_Some (_redirects (this (perform_all toUrl calls w)) !! k)).
Proof.
  revert w. induction calls as [|c calls IH]; intros w; [done|].
  unfold perform_all. simpl. fold (perform_all toUrl calls (perform toUrl c w).2).
  destruct (perform_keeps_keys c w k) as [Ho Hr].
  destruct (IH (perform toUrl c w).2) as [Ho' Hr'].
  split; auto.
Qed.

Lemma options_of_config_snoc log (path : primitive) (options : data) :
  options_of_config toUrl (log ++ [(path, options)])
  = options_set (options_of_config toUrl log) (toUrl path) options.
Proof. unfold options_of_config. by rewrite foldl_snoc. Qed.

(** X4. In every registry reached from the initial one, the options object
    is exactly what replaying the loader's [config] calls as writes gives:
    the registry and the loader have been told the same. *)
Theorem reachable_options_of_config (w : World) :
  reachable toUrl w →
  _options (this w) = options_of_config toUrl (loader_config w).
Proof.
  induction 1 as [|w c Hw IH]; [done|].
  destruct c as [path options alias|path|path]; simpl; by_equations;
    [|exact IH..].
  by rewrite options_of_config_snoc, <- IH.
Qed.

(** Where what a read of the options of a reachable registry returns comes
    from: nowhere ([undefined]), a registration, the standard library, or
    a property of a registered object. *)
Lemma options_get_origin (w : World) (k : string) :
  reachable toUrl w →
  options_get (_options (this w)) k = Data (Primitive VUndefined) ∨
  (∃ (path : primitive) options,
     (path, options) ∈ loader_config w ∧
     options_get (_options (this w)) k = Data options) ∨
  (∃ n, options_get (_options (this w)) k = Native n) ∨
  (∃ (path : primitive) properties k' d,
     (path, Object properties) ∈ loader_config w ∧
     assoc k' properties = Some d ∧
     options_get (_options (this w)) k = Data d).
Proof.
  intros Hw. unfold options_get.
  destruct (_options (this w) !! k) as [d|] eqn:Hown.
  { right. left. destruct (reachable_options_logged w _ _ Hw Hown)
      as (path & Hin & _). by exists path, d. }
  assert (Hmethod :
    ∀ A B C : Prop,
      default (Data (Primitive VUndefined)) (Native <$> Object_prototype_method k)
        = Data (Primitive VUndefined) ∨ A ∨
      (∃ n, default (Data (Primitive VUndefined))
              (Native <$> Object_prototype_method k) = Native n) ∨ C).
  { intros A B C. destruct (Object_prototype_method k) as [n|]; simpl.
    - right. right. left. by exists n.
    - by left. }
  destruct (options_prototype (_options (this w))) as [| |properties] eqn:Hp;
    simpl.
  - destruct (bool_decide (k = "__proto__")); simpl.
    + right. right. left. by eexists.
    + by apply (Hmethod _ True).
  - by left.
  - destruct (reachable_prototype_logged w _ Hw Hp) as [path Hin].
    destruct (assoc k properties) as [d|] eqn:Hassoc; simpl.
    + right. right. right. by exists path, properties, k, d.
    + destruct (bool_decide (k = "__proto__")); simpl.
      * right. left. by exists path, (Object properties).
      * by apply (Hmethod _ True).
Qed.

(** X5. What the lookups hand out, on a reachable registry: [getModule]
    returns [undefined], the options of some registration, a member of
    [Object.prototype], or a property of an object that was registered;
    [getRedirect] returns its argument, the path of some registration, or
    a member of [Object.prototype]. *)
Theorem lookups_return_registered (w : World) (arg : name) :
  reachable toUrl w →
  (∀ r, (getModule toUrl arg w).1 = Normal r →
        r = Data (Primitive VUndefined) ∨
        (∃ (path : primitive) options,
           (path, options) ∈ loader_config w ∧ r = Data options) ∨
        (∃ n, r = Native n) ∨
        (∃ (path : primitive) properties k d,
           (path, Object properties) ∈ loader_config w ∧
           assoc k properties = Some d ∧ r = Data d)) ∧
  (∀ r, (getRedirect arg w).1 = Normal r →
        r = arg ∨
        (∃ (path : primitive) options,
           (path, options) ∈ loader_config w ∧ r = Named path) ∨
        (∃ n, r = NativeName n)).
Proof.
  intros Hw. split; intros r; by_equations.
  - destruct (truthy arg); [|discriminate]. intros [= <-].
    unfold js_or.
    destruct (truthy (options_get (_options (this w)) (to_key arg)));
      by apply options_get_origin.
  - intros [= <-]. unfold js_or, redirects_get.
    destruct (_redirects (this w) !! to_key arg) as [target|] eqn:Htarget.
    + change (truthy (Named target)) with (truthy target).
      destruct (truthy target); [|by left].
      right. left.
      destruct (reachable_redirects_logged w _ _ Hw Htarget) as [options Hin].
      by exists target, options.
    + unfold redirects_inherited.
      destruct (redirects_inherits (_redirects (this w))); simpl; [|by left].
      destruct (bool_decide (to_key arg = "__proto__")); simpl.
      * right. right. by eexists.
      * destruct (Object_prototype_method (to_key arg)) as [n|]; simpl;
          [|by left].
        right. right. by eexists.
Qed.

(** X6. [getRedirect] resolves one step only. When [b] is registered as
    an alias of [c] and then [a] as an alias of [b], neither alias being
    [__proto__], [getRedirect(a)] is [b], not [c]; the redirect of [b] is
    found by asking again. *)
Theorem getRedirect_one_step
    (w : World) (a b c : primitive) (options1 options2 : data) :
  truthy a = true → truthy b = true → truthy c = true →
  to_key a ≠ to_key b →
  to_key a ≠ "__proto__" → to_key b ≠ "__proto__" →
  let w' := (registerModule toUrl b options2 a
               (registerModule toUrl c options1 b w).2).2 in
  (getRedirect a w').1 = Normal (Named b) ∧
  (getRedirect b w').1 = Normal (Named c).
Proof.
  intros Ha Hb Hc Hne Hka Hkb. simpl. by_equations. rewrite Ha, Hb.
  rewrite redirects_get_set_same by done.
  rewrite redirects_get_set_ne, redirects_get_set_same by done.
  by rewrite !js_or_truthy.
Qed.

(** X7. What was just registered, under a path not resolved to
    [__proto__], is found again. Truthy options are returned by
    [getModule] for the resolved form of the path, whatever the loader and
    the registry; and for the path itself when [_options] had nothing
    truthy to read under the path as given or the loader resolves the path
    to its own key. *)
Theorem getModule_after_registerModule
    (w : World) (path : primitive) (options : data) (alias : primitive) :
  toUrl path ≠ "__proto__" →
  let w' := (registerModule toUrl path options alias w).2 in
  (truthy (VString (toUrl path)) = true → truthy options = true →
   (getModule toUrl (VString (toUrl path)) w').1 = Normal (Data options)) ∧
  (truthy path = true →
   truthy (options_get (_options (this w)) (to_key path)) = false ∨
     toUrl path = to_key path →
   (getModule toUrl path w').1 = Normal (Data options)).
Proof.
  intros Hurl. simpl. split.
  - intros Htruthy Hoptions. by_equations.
    change (truthy (Named (VString (toUrl path))))
      with (truthy (VString (toUrl path))).
    rewrite Htruthy. f_equal.
    change (to_key (VString (toUrl path))) with (toUrl path).
    rewrite options_get_set_same by done. by apply js_or_truthy.
  - intros Hpath Hstale. by_equations.
    change (truthy (Named path)) with (truthy path). rewrite Hpath. f_equal.
    rewrite (options_get_set_same _ (toUrl path)) by done.
    destruct (decide (to_key path = toUrl path)) as [Hfix|Hne].
    + rewrite Hfix, options_get_set_same by done.
      unfold js_or. by destruct (truthy (Data options)).
    + destruct Hstale as [Hfalsy|Hfix]; [|by destruct Hne].
      apply js_or_falsy. by rewrite options_get_set_ne.
Qed.

(** X8. When the loader leaves a resolved path alone (if the key of the
    path is that of some resolved path, the path resolves to its own key)
    and the options object inherits nothing under the key of the path or
    of its resolved form, [getModule] on a reachable registry goes by the
    presence of the key after all: it returns what is stored under the
    path as given, falsy or not, otherwise what is stored under the
    resolved path, otherwise [undefined]. *)
Theorem getModule_by_presence (w : World) (path : name) :
  (∀ q : primitive, to_key path = toUrl q → toUrl path = to_key path) →
  reachable toUrl w →
  truthy path = true →
  options_inherits_nothing w (to_key path) →
  options_inherits_nothing w (toUrl path) →
  (getModule toUrl path w).1 = Normal (module_by_presence toUrl w path).
Proof.
  intros Hloader Hw Hpath Hplain Hplain'. by_equations. rewrite Hpath. f_equal.
  rewrite (options_get_plain w _ Hplain), (options_get_plain w _ Hplain').
  unfold module_by_presence, js_or, options_own_get.
  destruct (_options (this w) !! to_key path) as [v|] eqn:Hgiven; [|done].
  destruct (truthy (Data v)); [done|].
  destruct (reachable_options_logged w _ _ Hw Hgiven) as (q & _ & Hq).
  by rewrite (Hloader _ Hq), Hgiven.
Qed.

(** X9. As long as every path that was registered is truthy, [getRedirect]
    on a reachable registry goes by the presence of the key for every name
    under whose key the redirects object inherits nothing: it returns the
    target of the name if a redirect is registered, else the name. *)
Theorem getRedirect_by_presence (w : World) (n : name) :
  reachable toUrl w →
  Forall (λ entry, truthy entry.1 = true) (loader_config w) →
  redirects_inherits_nothing w (to_key n) →
  (getRedirect n w).1 = Normal (redirect_by_presence w n).
Proof.
  intros Hw Hpaths Hplain. by_equations. f_equal.
  unfold redirect_by_presence, js_or, redirects_get.
  destruct (_redirects (this w) !! to_key n) as [target|] eqn:Htarget.
  - destruct (reachable_redirects_logged w _ _ Hw Htarget) as [options Hin].
    rewrite Forall_forall in Hpaths.
    specialize (Hpaths _ Hin). simpl in Hpaths.
    change (truthy (Named target)) with (truthy target). by rewrite Hpaths.
  - unfold redirects_inherits_nothing in Hplain. by rewrite Hplain.
Qed.

(** X10. The lookups in a sequence of calls make no difference to where it
    ends: the state after the whole sequence is the state after its
    registrations alone, also when some [getModule] in it throws. *)
Theorem perform_all_registrations (calls : list call) (w : World) :
  perform_all toUrl calls w
  = perform_all toUrl (List.filter is_register calls) w.
Proof.
  revert w. induction calls as [|c calls IH]; intros w; [done|].
  simpl. destruct (is_register c) eqn:Hc.
  - unfold perform_all. simpl. apply IH.
  - unfold perform_all at 1. simpl. rewrite (perform_read c w Hc). apply IH.
Qed.

(** X11. A registration adds at most one key to the options and at most
    one to the redirects: in a reachable registry neither map has more
    entries than the loader has received [config] calls. *)
Theorem reachable_size (w : World) :
  reachable toUrl w →
  (size (_options (this w)) ≤ List.length (loader_config w))%nat ∧
  (size (_redirects (this w)) ≤ List.length (loader_config w))%nat.
Proof.
  induction 1 as [|w c Hw [IHo IHr]]; [done|].
  destruct c as [path options alias|path|path]; simpl; by_equations;
    [|done..].
  rewrite length_app. simpl. split.
  - pose proof (options_set_size (_options (this w)) (toUrl path) options).
    lia.
  - destruct (truthy alias); [|lia].
    pose proof (redirects_set_size (_redirects (this w)) (to_key alias) path).
    lia.
Qed.

(** X12. Every reachable registry is where some sequence of registrations
    alone ends when started from the initial registry, and every such end
    is reachable. *)
Theorem reachable_by_registrations (w : World) :
  reachable toUrl w ↔
  ∃ calls, forallb is_register calls = true ∧
           w = perform_all toUrl calls initial.
Proof.
  split.
  - induction 1 as [|w c Hw (calls & Hcalls & ->)].
    + by exists [].
    + destruct (is_register c) eqn:Hc.
      * exists (calls ++ [c])%list. split.
        -- rewrite forallb_app, Hcalls. simpl. by rewrite Hc.
        -- unfold perform_all. by rewrite foldl_snoc.
      * exists calls. split; [done|]. by apply perform_read.
  - intros (calls & _ & ->).
    induction calls as [|c calls IH] using rev_ind.
    + apply reachable_initial.
    + unfold perform_all. rewrite foldl_snoc.
      by apply reachable_perform.
Qed.

(** X13. What a registration under ordinary keys does. Every call of
    [registerModule] completes without an error, passes the path and the
    options on to the loader's [config], and leaves every own property of
    the options and of the redirects under another key as it was. When the
    loader does not resolve the path to [__proto__] the options are stored
    under the key of the resolved path, and a second registration of the
    path puts its options in their place; when the alias is truthy and not
    [__proto__] the redirect from the alias to the path is recorded. *)
Theorem registerModule_correct
    (w : World) (path : primitive) (options : data) (alias : primitive) :
  ∃ w',
    registerModule toUrl path options alias w
      = (Normal (Data (Primitive VUndefined)), w') ∧
    loader_config w' = (loader_config w ++ [(path, options)])%list ∧
    (∀ k, k ≠ toUrl path →
          _options (this w') !! k = _options (this w) !! k) ∧
    (∀ k, k ≠ to_key alias →
          _redirects (this w') !! k = _redirects (this w) !! k) ∧
    (toUrl path ≠ "__proto__" →
     _options (this w') !! toUrl path = Some options ∧
     ∀ options2 alias2,
       _options (this (registerModule toUrl path options2 alias2 w').2)
         !! toUrl path = Some options2) ∧
    (truthy alias = true → to_key alias ≠ "__proto__" →
     _redirects (this w') !! to_key alias = Some path).
Proof.
  rewrite registerModule_eq. eexists; split; [reflexivity|]. simpl.
  split; [done|].
  split; [intros k Hk; by apply options_set_lookup_ne|].
  split.
  { intros k Hk. destruct (truthy alias); [|done].
    by apply redirects_set_lookup_ne. }
  split.
  - intros Hurl. split; [by apply options_set_lookup_same|].
    intros options2 alias2. rewrite registerModule_eq. simpl.
    by apply options_set_lookup_same.
  - intros -> Hkey. by apply redirects_set_lookup_same.
Qed.

(** X14. What a registration under [__proto__] does. When the loader
    resolves the path to [__proto__], the options are an object and
    [_options] has no own property [__proto__] and still inherits from
    [Object.prototype], no own property is stored; the object becomes what
    [_options] inherits from, and [getModule] then returns its truthy
    properties for the names that are not keys of the options. *)
Theorem registerModule_under_proto
    (w : World) (path : primitive) properties (alias : primitive)
    (n : name) (d : data) :
  toUrl path = "__proto__" →
  _options (this w) !! "__proto__" = None →
  options_prototype (_options (this w)) = InheritsObjectPrototype →
  let w' := (registerModule toUrl path (Object properties) alias w).2 in
  options_own (_options (this w')) = options_own (_options (this w)) ∧
  (truthy n = true →
   _options (this w) !! to_key n = None →
   assoc (to_key n) properties = Some d →
   truthy d = true →
   (getModule toUrl n w').1 = Normal (Data d)).
Proof.
  intros Hurl Hown Hproto. simpl. by_equations. rewrite Hurl.
  assert (Hset :
    options_set (_options (this w)) "__proto__" (Object properties)
    = {| options_own := options_own (_options (this w));
         options_prototype := InheritsObject properties |}).
  { unfold options_set, options_has_setter. by rewrite Hown, Hproto. }
  rewrite Hset. split; [done|].
  intros Hn Hnone Hassoc Hd. rewrite Hn. f_equal.
  assert (Hget :
    options_get {| options_own := options_own (_options (this w));
                   options_prototype := InheritsObject properties |}
      (to_key n) = Data d).
  { unfold options_get. rewrite options_lookup_mk.
    change (options_own (_options (this w)) !! to_key n)
      with (_options (this w) !! to_key n).
    rewrite Hnone. simpl. by rewrite Hassoc. }
  rewrite Hget. by apply js_or_truthy.
Qed.

End RegistryFurther.

(** ** The further properties at concrete registries *)

(** A repeated registration is not always without effect: registered twice
    with [null] options under a path resolved to [__proto__], the first
    call takes the prototype of [_options] away and the second one stores
    an own property. *)
Lemma registerModule_repeat_proto_null :
  let w1 := (registerModule toUrl_same (VString "__proto__") (Primitive VNull)
               VUndefined initial).2 in
  let w2 := (registerModule toUrl_same (VString "__proto__") (Primitive VNull)
               VUndefined w1).2 in
  _options (this w1) !! "__proto__" = None ∧
  _options (this w2) !! "__proto__" = Some (Primitive VNull) ∧
  this w2 ≠ this w1.
Proof.
  repeat split. intros H.
  apply (f_equal (λ r, _options r !! "__proto__")) in H.
  vm_compute in H. discriminate.
Qed.

Lemma registerModule_idempotent_witness :
  let w1 := (registerModule toUrl_base (VString "x") options1 (VString "a")
               initial).2 in
  this (registerModule toUrl_base (VString "x") options1 (VString "a") w1).2
  = this w1.
Proof.
  apply (registerModule_idempotent toUrl_base initial (VString "x") options1
           (VString "a")).
  - discriminate.
  - intros _. discriminate.
Defined.

Lemma registerModule_commute_witness :
  this (registerModule toUrl_base (VString "y") options2 (VString "b")
          (registerModule toUrl_base (VString "x") options1 (VString "a")
             initial).2).2
  = this (registerModule toUrl_base (VString "x") options1 (VString "a")
            (registerModule toUrl_base (VString "y") options2 (VString "b")
               initial).2).2.
Proof.
  apply (registerModule_commute toUrl_base initial (VString "x") options1
           (VString "a") (VString "y") options2 (VString "b")).
  - discriminate.
  - intros _ _. discriminate.
Defined.

Lemma perform_all_keeps_keys_witness :
  is_Some (_options (this x_registered) !! "/base/x") ∧
  is_Some (_options
             (this (perform_all toUrl_base
                      [GetModule (VString "");
                       RegisterModule (VString "y") (Primitive VNull)
                         (VString "x");
                       GetRedirect (VString "x")]
                      x_registered)) !! "/base/x").
Proof.
  assert (H : is_Some (_options (this x_registered) !! "/base/x")).
  { exists options7. reflexivity. }
  split; [exact H|].
  exact (proj1 (perform_all_keeps_keys toUrl_base _ x_registered "/base/x") H).
Defined.

Lemma reachable_options_of_config_witness :
  reachable toUrl_base null_then_object ∧
  _options (this null_then_object)
  = options_of_config toUrl_base
      [(VString "x", Primitive VNull); (VString "/base/x", options1)].
Proof.
  assert (H : reachable toUrl_base null_then_object).
  { unfold null_then_object.
    do 2 apply reachable_registerModule. apply reachable_initial. }
  split; [exact H|].
  exact (reachable_options_of_config toUrl_base null_then_object H).
Defined.

Lemma lookups_return_registered_witness :
  reachable toUrl_base null_then_object ∧
  (getModule toUrl_base (VString "/base/x") null_then_object).1
    = Normal (Data options1) ∧
  (Data options1 = Data (Primitive VUndefined) ∨
   (∃ (path : primitive) options,
      (path, options) ∈ loader_config null_then_object ∧
      Data options1 = Data options) ∨
   (∃ n, Data options1 = Native n) ∨
   (∃ (path : primitive) properties k d,
      (path, Object properties) ∈ loader_config null_then_object ∧
      assoc k properties = Some d ∧ Data options1 = Data d)).
Proof.
  assert (H : reachable toUrl_base null_then_object).
  { unfold null_then_object.
    do 2 apply reachable_registerModule. apply reachable_initial. }
  split; [exact H|]. split; [reflexivity|].
  exact (proj1 (lookups_return_registered toUrl_base null_then_object
                  (VString "/base/x") H) (Data options1) eq_refl).
Defined.

Lemma getRedirect_one_step_witness :
  let w := (registerModule toUrl_same (VString "b") options2 (VString "a")
              (registerModule toUrl_same (VString "c") options1
                 (VString "b") initial).2).2 in
  (getRedirect (VString "a") w).1 = Normal (Named (VString "b")) ∧
  (getRedirect (VString "b") w).1 = Normal (Named (VString "c")).
Proof.
  apply (getRedirect_one_step toUrl_same initial (VString "a") (VString "b")
           (VString "c") options1 options2);
    [reflexivity | reflexivity | reflexivity | discriminate..].
Defined.

Lemma getModule_after_registerModule_witness :
  let w := (registerModule toUrl_base (VString "x") options1 VUndefined
              x_registered).2 in
  (getModule toUrl_base (VString "/base/x") w).1 = Normal (Data options1) ∧
  (getModule toUrl_base (VString "x") w).1 = Normal (Data options1).
Proof.
  assert (Hurl : toUrl_base (VString "x") ≠ "__proto__") by discriminate.
  split.
  - apply (proj1 (getModule_after_registerModule toUrl_base x_registered
                    (VString "x") options1 VUndefined Hurl)); reflexivity.
  - apply (proj2 (getModule_after_registerModule toUrl_base x_registered
                    (VString "x") options1 VUndefined Hurl));
      [reflexivity | left; reflexivity].
Defined.

Lemma getModule_by_presence_witness :
  let w := (registerModule toUrl_absolute (VString "x") (Primitive VNull)
              VUndefined initial).2 in
  reachable toUrl_absolute w ∧
  _options (this w) !! "/base/x" = Some (Primitive VNull) ∧
  (getModule toUrl_absolute (VString "/base/x") w).1
    = Normal (Data (Primitive VNull)).
Proof.
  intros w.
  assert (H : reachable toUrl_absolute w).
  { apply reachable_registerModule. apply reachable_initial. }
  split; [exact H|]. split; [reflexivity|].
  apply (getModule_by_presence toUrl_absolute w (VString "/base/x"));
    [intros q _; reflexivity | exact H | reflexivity..].
Defined.

Lemma getRedirect_by_presence_witness :
  let w := (registerModule toUrl_base (VString "x") options1 (VString "a")
              initial).2 in
  reachable toUrl_base w ∧
  Forall (λ entry, truthy entry.1 = true) (loader_config w) ∧
  redirects_inherits_nothing w "a" ∧
  (getRedirect (VString "a") w).1 = Normal (Named (VString "x")).
Proof.
  intros w.
  assert (H : reachable toUrl_base w).
  { apply reachable_registerModule. apply reachable_initial. }
  assert (Hpaths : Forall (λ entry, truthy entry.1 = true) (loader_config w)).
  { repeat constructor. }
  split; [exact H|]. split; [exact Hpaths|]. split; [reflexivity|].
  exact (getRedirect_by_presence toUrl_base w (VString "a") H Hpaths eq_refl).
Defined.

Lemma reachable_size_witness :
  reachable toUrl_base null_then_object ∧
  (size (_options (this null_then_object)) ≤ 2)%nat ∧
  (size (_redirects (this null_then_object)) ≤ 2)%nat.
Proof.
  assert (H : reachable toUrl_base null_then_object).
  { unfold null_then_object.
    do 2 apply reachable_registerModule. apply reachable_initial. }
  split; [exact H|].
  exact (reachable_size toUrl_base null_then_object H).
Defined.

Lemma reachable_by_registrations_witness :
  reachable toUrl_base
    (perform_all toUrl_base
       [RegisterModule (VString "x") (Primitive VNull) VUndefined;
        RegisterModule (VString "/base/x") options1 VUndefined]
       initial).
Proof.
  apply (proj2 (reachable_by_registrations toUrl_base _)).
  eexists. split; [|reflexivity]. reflexivity.
Defined.

Lemma registerModule_correct_witness :
  ∃ w',
    registerModule toUrl_base (VString "x") options1 (VString "a") initial
      = (Normal (Data (Primitive VUndefined)), w') ∧
    _options (this w') !! "/base/x" = Some options1 ∧
    _redirects (this w') !! "a" = Some (VString "x") ∧
    loader_config w' = [(VString "x", options1)].
Proof.
  destruct (registerModule_correct toUrl_base initial (VString "x")
              options1 (VString "a"))
    as (w' & Hrun & Hconfig & _ & _ & Hoptions & Halias).
  exists w'. split; [exact Hrun|]. split.
  - apply Hoptions. discriminate.
  - split; [|exact Hconfig]. apply Halias; [reflexivity | discriminate].
Defined.

Lemma registerModule_under_proto_witness :
  let w := (registerModule toUrl_same (VString "__proto__") options1
              VUndefined x_registered).2 in
  options_own (_options (this w)) = options_own (_options (this x_registered)) ∧
  (getModule toUrl_same (VString "id") w).1
    = Normal (Data (Primitive (VString "one"))).
Proof.
  destruct (registerModule_under_proto toUrl_same x_registered
              (VString "__proto__") [("id", Primitive (VString "one"))]
              VUndefined (VString "id") (Primitive (VString "one"))
              eq_refl eq_refl eq_refl) as [Hown Hget].
  split; [exact Hown|]. apply Hget; reflexivity.
Defined.
